(** * FakeFPGA/ChipObject/niLoadOut.cpp: module presence on the simulated backplane

    A shallow embedding of [nLoadOut::getModulePresence] and the properties
    the specification states of it. *)

From Stdlib Require Import ZArith Bool List Lia.
Import ListNotations.

Local Open Scope Z_scope.

(** ** <stdint.h>

    A [uint8_t] is carried as the integer it denotes.  The source only
    compares [moduleNumber] with the literals 0 and 1; C++ promotes both
    sides to [int] first, so the comparisons are comparisons of integers and
    nothing wraps inside the function. *)

Definition uint8_t : Type := Z.

Definition UINT8_MAX : Z := 255.

Definition is_uint8 (n : Z) : Prop := 0 <= n <= UINT8_MAX.

(** The conversion of an integer to [uint8_t], as C++ applies it to an
    argument of a wider integer type: the value modulo 2^8. *)
Definition to_uint8 (z : Z) : uint8_t := z mod 256.

(** All values of [uint8_t], in increasing order. *)
Definition uint8_values : list uint8_t := map Z.of_nat (seq 0 256).

(** ** The [switch] statement

    [switch v cases default] runs
    [switch (v) { case l1: return r1; ... case lk: return rk; default: return d; }]
    where every case body is a single [return].  Control goes to the case
    whose label equals [v]; with no such case it goes to [default], and with
    no [default] either ([None]) it leaves the statement without having
    returned.  The result [None] is that last outcome: the end of the
    function body is reached with no value to return. *)

Fixpoint switch {A : Type} (v : Z) (cases : list (Z * A)) (default : option A)
  : option A :=
  match cases with
  | [] => default
  | (label, result) :: rest =>
      if v =? label then Some result else switch v rest default
  end.

(** ** Function bodies over the state of the program

    A function body is run in a state of the program (its global objects,
    the registers of the devices, what was written and read so far) and
    leaves a state behind: [body w] is what the body returns, if it returns,
    and the state after it.  [return_ value] is the statement
    [return value;] for an expression that reads the parameters only, and
    [switch_stmt] is the [switch] statement over case bodies that are
    statements. *)

Section Cpp.

Variable World : Type.

Definition Cpp (A : Type) : Type := World -> option A * World.

Definition return_ {A : Type} (value : A) : Cpp A :=
  fun w => (Some value, w).

Fixpoint switch_stmt {A : Type} (v : Z) (cases : list (Z * Cpp A))
  (default : option (Cpp A)) : Cpp A :=
  match cases with
  | [] =>
      match default with
      | Some body => body
      | None => fun w => (None, w)
      end
  | (label, body) :: rest =>
      if v =? label then body else switch_stmt v rest default
  end.

(** A body without effect: its result is the same in every state, and it
    leaves the state as it found it. *)
Definition effect_free {A : Type} (body : Cpp A) : Prop :=
  exists result, forall w, body w = (result, w).

End Cpp.

Arguments return_ {World A} value.
Arguments switch_stmt {World A} v cases default.
Arguments effect_free {World A} body.

Module nLoadOut.

(** The enumeration [tModuleType] is declared in
    NetworkCommunication/LoadOut.h, which is not part of the sources at
    hand.  A value of the enumeration is carried as its integer value, so
    that values outside the enumerators are values too, and the three
    enumerators the function names are parameters. *)

Definition tModuleType : Type := Z.

Section LoadOut_h.

Variables kModuleType_Analog kModuleType_Digital kModuleType_Solenoid
  : tModuleType.

Definition getModulePresence (moduleType : tModuleType) (moduleNumber : uint8_t)
  : option bool :=
  switch moduleType
    [ (kModuleType_Analog, moduleNumber =? 0);
      (kModuleType_Digital, (moduleNumber <=? 1) && (moduleNumber >=? 0));
      (kModuleType_Solenoid, moduleNumber =? 0) ]
    (Some false).

(** The test of the Digital case, as the source writes it. *)
Definition digital_range_test (moduleNumber : uint8_t) : bool :=
  (moduleNumber <=? 1) && (moduleNumber >=? 0).

(** The simplified test of the specification: the upper bound alone. *)
Definition digital_upper_bound_test (moduleNumber : uint8_t) : bool :=
  moduleNumber <=? 1.

(** A caller's session: the calls it makes, in order, and the results it
    sees, in the same order. *)
Definition call : Type := (tModuleType * uint8_t)%type.

Fixpoint session_results (calls : list call) : list (option bool) :=
  match calls with
  | [] => []
  | (moduleType, moduleNumber) :: later =>
      getModulePresence moduleType moduleNumber :: session_results later
  end.

(** A call [getModulePresence(moduleType, argument)] whose argument is an
    [int] expression: the argument is converted to the type [uint8_t] of
    the parameter [moduleNumber] before the body runs. *)
Definition getModulePresence_int (moduleType : tModuleType) (argument : Z)
  : option bool :=
  getModulePresence moduleType (to_uint8 argument).

(** The module numbers that a scan of a module type over all [uint8_t]
    values finds present. *)
Definition present_numbers (moduleType : tModuleType) : list uint8_t :=
  filter
    (fun moduleNumber =>
       match getModulePresence moduleType moduleNumber with
       | Some present => present
       | None => false
       end)
    uint8_values.

(** The function once more, as a body run in the state of the program:
    statement by statement as the source has it. *)
Variable World : Type.

Definition getModulePresence_call
  (moduleType : tModuleType) (moduleNumber : uint8_t) : Cpp World bool :=
  switch_stmt moduleType
    [ (kModuleType_Analog, return_ (moduleNumber =? 0));
      (kModuleType_Digital,
        return_ ((moduleNumber <=? 1) && (moduleNumber >=? 0)));
      (kModuleType_Solenoid, return_ (moduleNumber =? 0)) ]
    (Some (return_ false)).

(** A session run in the state of the program: each call starts in the
    state the call before it left. *)
Fixpoint run_session (calls : list call) (w : World)
  : list (option bool) * World :=
  match calls with
  | [] => ([], w)
  | (moduleType, moduleNumber) :: later =>
      let (result, w1) := getModulePresence_call moduleType moduleNumber w in
      let (results, w2) := run_session later w1 in
      (result :: results, w2)
  end.

End LoadOut_h.

(** One numbering of the enumeration, to run the function on: the unnamed
    remainder of the enumeration is the value 0. *)
Module Numbering.

Definition Unknown : tModuleType := 0.

Definition Analog : tModuleType := 1.

Definition Digital : tModuleType := 2.

Definition Solenoid : tModuleType := 3.

End Numbering.

(** ** The [switch] statement: which case is taken *)

Section SwitchFacts.

Context {A : Type}.
Implicit Types (v label : Z) (cases : list (Z * A)) (default : option A).

Lemma switch_taken v label (result : A) cases default :
  v = label -> switch v ((label, result) :: cases) default = Some result.
Proof.
  intros ->. simpl. now rewrite Z.eqb_refl.
Qed.

Lemma switch_skipped v label (result : A) cases default :
  v <> label ->
  switch v ((label, result) :: cases) default = switch v cases default.
Proof.
  intros Hne. simpl.
  apply Z.eqb_neq in Hne. now rewrite Hne.
Qed.

Lemma switch_default v cases default :
  Forall (fun c => v <> fst c) cases -> switch v cases default = default.
Proof.
  induction 1 as [| [label result] rest Hhead _ IH]; [reflexivity |].
  rewrite switch_skipped; [exact IH | exact Hhead].
Qed.

(** A [switch] with a [default] always returns. *)
Lemma switch_returns v cases (d : A) :
  exists r, switch v cases (Some d) = Some r.
Proof.
  induction cases as [| [label result] rest IH]; simpl.
  - now exists d.
  - destruct (v =? label); [now exists result | exact IH].
Qed.

(** What a [switch] returns is one of its case bodies or its default. *)
Lemma switch_result v cases default (r : A) :
  switch v cases default = Some r ->
  In r (map snd cases) \/ default = Some r.
Proof.
  induction cases as [| [label result] rest IH]; simpl; intros H.
  - now right.
  - destruct (v =? label).
    + injection H as ->. left. now left.
    + destruct (IH H) as [Hin | Hd]; [left; now right | now right].
Qed.

End SwitchFacts.

(** ** Bodies without effect *)

Section EffectFacts.

Context {World A : Type}.

Lemma return_effect_free (value : A) : effect_free (World := World) (return_ value).
Proof.
  exists (Some value). reflexivity.
Qed.

(** A [switch] whose case bodies and default are without effect is without
    effect, whichever case is taken. *)
Lemma switch_stmt_effect_free (v : Z) (cases : list (Z * Cpp World A))
  (default : option (Cpp World A)) :
  Forall (fun c => effect_free (snd c)) cases ->
  (forall body, default = Some body -> effect_free body) ->
  effect_free (switch_stmt v cases default).
Proof.
  intros Hcases Hdefault.
  induction Hcases as [| [label body] rest Hbody _ IH]; simpl.
  - destruct default as [body |]; [now apply Hdefault |].
    exists None. reflexivity.
  - destruct (v =? label); [exact Hbody | exact IH].
Qed.

(** A [switch] of [return] statements returns what the [switch] over the
    returned values gives, in the state it started in. *)
Lemma switch_stmt_of_returns (v : Z) (cases : list (Z * A))
  (default : option A) (w : World) :
  switch_stmt v
    (map (fun c => (fst c, return_ (snd c))) cases)
    (option_map return_ default) w
  = (switch v cases default, w).
Proof.
  induction cases as [| [label value] rest IH]; simpl.
  - destruct default; reflexivity.
  - destruct (v =? label); [reflexivity | exact IH].
Qed.

End EffectFacts.

(** ** Comparisons of a module number with the literals *)

Lemma between_0_and_1 (n : Z) :
  (n <=? 1) && (n >=? 0) = (n =? 0) || (n =? 1).
Proof.
  apply eq_true_iff_eq.
  rewrite andb_true_iff, orb_true_iff, Z.leb_le, Z.geb_le, !Z.eqb_eq.
  lia.
Qed.

Lemma lower_bound_of_unsigned (n : Z) : 0 <= n -> (n >=? 0) = true.
Proof.
  intros Hn. now apply Z.geb_le.
Qed.

(** ** The presence table *)

Section Presence.

Variables kModuleType_Analog kModuleType_Digital kModuleType_Solenoid
  : tModuleType.

Local Abbreviation getModulePresence :=
  (getModulePresence
     kModuleType_Analog kModuleType_Digital kModuleType_Solenoid).

Local Abbreviation session_results :=
  (session_results
     kModuleType_Analog kModuleType_Digital kModuleType_Solenoid).

Local Abbreviation getModulePresence_int :=
  (getModulePresence_int
     kModuleType_Analog kModuleType_Digital kModuleType_Solenoid).

Local Abbreviation getModulePresence_call :=
  (getModulePresence_call
     kModuleType_Analog kModuleType_Digital kModuleType_Solenoid).

Local Abbreviation run_session :=
  (run_session
     kModuleType_Analog kModuleType_Digital kModuleType_Solenoid).

Lemma analog_case (n : uint8_t) :
  getModulePresence kModuleType_Analog n = Some (n =? 0).
Proof.
  unfold nLoadOut.getModulePresence. now apply switch_taken.
Qed.

Lemma digital_case (n : uint8_t) :
  kModuleType_Digital <> kModuleType_Analog ->
  getModulePresence kModuleType_Digital n = Some ((n <=? 1) && (n >=? 0)).
Proof.
  intros HDA. unfold nLoadOut.getModulePresence.
  rewrite switch_skipped by exact HDA.
  now apply switch_taken.
Qed.

Lemma solenoid_case (n : uint8_t) :
  kModuleType_Solenoid <> kModuleType_Analog ->
  kModuleType_Solenoid <> kModuleType_Digital ->
  getModulePresence kModuleType_Solenoid n = Some (n =? 0).
Proof.
  intros HSA HSD. unfold nLoadOut.getModulePresence.
  rewrite !switch_skipped by assumption.
  now apply switch_taken.
Qed.

Lemma default_case (t : tModuleType) (n : uint8_t) :
  t <> kModuleType_Analog ->
  t <> kModuleType_Digital ->
  t <> kModuleType_Solenoid ->
  getModulePresence t n = Some false.
Proof.
  intros HA HD HS. unfold nLoadOut.getModulePresence.
  apply switch_default.
  repeat constructor; assumption.
Qed.

(** Whatever the module type, a result [true] comes from one of the three
    range tests. *)
Lemma present_inv (t : tModuleType) (n : uint8_t) :
  getModulePresence t n = Some true ->
  (n =? 0) = true \/ ((n <=? 1) && (n >=? 0)) = true.
Proof.
  intros H. apply switch_result in H. simpl in H.
  destruct H as [[H | [H | [H | []]]] | H]; try discriminate; auto.
Qed.

(** C1: for every module number [n], [getModulePresence(Analog, n)] returns
    true if and only if [n == 0]: the call returns the value of [n == 0]. *)
Theorem analog_present_iff_zero (n : uint8_t) :
  getModulePresence kModuleType_Analog n = Some (n =? 0)
  /\ (getModulePresence kModuleType_Analog n = Some true <-> n = 0).
Proof.
  rewrite analog_case. split; [reflexivity |].
  rewrite <- Z.eqb_eq. split; [now injection 1 | now intros ->].
Qed.

(** C2: for every module number [n], [getModulePresence(Digital, n)] returns
    true if and only if [n == 0] or [n == 1].  The enumerators [Digital] and
    [Analog] are different values, as the case labels of one [switch] are. *)
Theorem digital_present_iff_zero_or_one (n : uint8_t) :
  kModuleType_Digital <> kModuleType_Analog ->
  getModulePresence kModuleType_Digital n = Some ((n =? 0) || (n =? 1))
  /\ (getModulePresence kModuleType_Digital n = Some true <-> n = 0 \/ n = 1).
Proof.
  intros HDA. rewrite (digital_case n HDA), between_0_and_1.
  split; [reflexivity |].
  split.
  - intros [= H]. apply orb_true_iff in H. now rewrite !Z.eqb_eq in H.
  - intros [-> | ->]; reflexivity.
Qed.

(** C3: for every module number [n], [getModulePresence(Solenoid, n)]
    returns true if and only if [n == 0].  The enumerator [Solenoid] differs
    from [Analog] and from [Digital], as the case labels of one [switch]
    do. *)
Theorem solenoid_present_iff_zero (n : uint8_t) :
  kModuleType_Solenoid <> kModuleType_Analog ->
  kModuleType_Solenoid <> kModuleType_Digital ->
  getModulePresence kModuleType_Solenoid n = Some (n =? 0)
  /\ (getModulePresence kModuleType_Solenoid n = Some true <-> n = 0).
Proof.
  intros HSA HSD. rewrite (solenoid_case n HSA HSD).
  split; [reflexivity |].
  destruct (Z.eqb_spec n 0) as [-> | Hn]; split; try reflexivity;
    [discriminate | contradiction].
Qed.

(** C4: for every module type value other than [Analog], [Digital] and
    [Solenoid], a value outside the enumeration included, and for every
    module number [n], [getModulePresence] returns false. *)
Theorem other_type_never_present (t : tModuleType) (n : uint8_t) :
  t <> kModuleType_Analog ->
  t <> kModuleType_Digital ->
  t <> kModuleType_Solenoid ->
  getModulePresence t n = Some false.
Proof.
  exact (default_case t n).
Qed.

(** ** Every call returns *)

Lemma returns_a_boolean (t : tModuleType) (n : uint8_t) :
  exists b, getModulePresence t n = Some b.
Proof.
  unfold nLoadOut.getModulePresence. apply switch_returns.
Qed.

Lemma absent_above_1 (t : tModuleType) (n : uint8_t) :
  1 < n -> getModulePresence t n = Some false.
Proof.
  intros Hn.
  destruct (returns_a_boolean t n) as [[|] Hb]; [| exact Hb].
  apply present_inv in Hb.
  rewrite andb_true_iff, Z.leb_le, Z.eqb_eq in Hb. lia.
Qed.


(** C6: the scenarios of the specification: (Analog, 0) is present,
    (Analog, 1) is not, (Digital, 1) is present, (Digital, 2) is not, and
    (Solenoid, 0) is present. *)
Theorem scenarios :
  kModuleType_Digital <> kModuleType_Analog ->
  kModuleType_Solenoid <> kModuleType_Analog ->
  kModuleType_Solenoid <> kModuleType_Digital ->
  getModulePresence kModuleType_Analog 0 = Some true
  /\ getModulePresence kModuleType_Analog 1 = Some false
  /\ getModulePresence kModuleType_Digital 1 = Some true
  /\ getModulePresence kModuleType_Digital 2 = Some false
  /\ getModulePresence kModuleType_Solenoid 0 = Some true.
Proof.
  intros HDA HSA HSD.
  rewrite !analog_case, !(fun n => digital_case n HDA),
    (solenoid_case 0 HSA HSD).
  repeat split.
Qed.

(** ** Sessions of calls *)

Lemma session_results_app (before after : list call) :
  session_results (before ++ after)
  = session_results before ++ session_results after.
Proof.
  induction before as [| [t n] before IH]; simpl; [reflexivity |].
  now rewrite IH.
Qed.

Lemma session_results_length (calls : list call) :
  length (session_results calls) = length calls.
Proof.
  induction calls as [| [t n] calls IH]; simpl; [reflexivity |].
  now rewrite IH.
Qed.

Lemma result_in_session (before after : list call)
  (t : tModuleType) (n : uint8_t) :
  nth_error (session_results (before ++ (t, n) :: after)) (length before)
  = Some (getModulePresence t n).
Proof.
  rewrite session_results_app.
  rewrite nth_error_app2 by (rewrite session_results_length; apply le_n).
  rewrite session_results_length, Nat.sub_diag. reflexivity.
Qed.

Lemma call_effect_free (World : Type) (t : tModuleType) (n : uint8_t) :
  effect_free (getModulePresence_call World t n).
Proof.
  unfold nLoadOut.getModulePresence_call.
  apply switch_stmt_effect_free.
  - repeat constructor; apply return_effect_free.
  - intros body [= <-]. apply return_effect_free.
Qed.

Lemma call_result (World : Type) (t : tModuleType) (n : uint8_t) (w : World) :
  getModulePresence_call World t n w = (getModulePresence t n, w).
Proof.
  unfold nLoadOut.getModulePresence_call, nLoadOut.getModulePresence.
  exact
    (switch_stmt_of_returns t
       [ (kModuleType_Analog, n =? 0);
         (kModuleType_Digital, (n <=? 1) && (n >=? 0));
         (kModuleType_Solenoid, n =? 0) ]
       (Some false) w).
Qed.

Lemma run_session_result (World : Type) (calls : list call) (w : World) :
  run_session World calls w = (session_results calls, w).
Proof.
  induction calls as [| [t n] later IH]; simpl; [reflexivity |].
  now rewrite call_result, IH.
Qed.


(** C8: in the Digital case the comparison with the lower bound is
    redundant: for every module number [n], an unsigned value, the test of
    the source [n <= 1 && n >= 0] equals the test [n <= 1], and
    [getModulePresence(Digital, n)] is [n <= 1]. *)
Theorem digital_lower_bound_redundant (n : uint8_t) :
  is_uint8 n ->
  kModuleType_Digital <> kModuleType_Analog ->
  digital_range_test n = digital_upper_bound_test n
  /\ getModulePresence kModuleType_Digital n = Some (digital_range_test n)
  /\ getModulePresence kModuleType_Digital n
     = Some (digital_upper_bound_test n).
Proof.
  intros [Hlo _] HDA.
  assert (Heq : digital_range_test n = digital_upper_bound_test n).
  { unfold digital_range_test, digital_upper_bound_test.
    rewrite (lower_bound_of_unsigned n Hlo). apply andb_true_r. }
  split; [exact Heq |].
  rewrite <- Heq. split; apply (digital_case n HDA).
Qed.

(** C9: for every module type and every module number [n], if
    [getModulePresence(type, n)] returns true then [n <= 1]: no module
    number from 2 on is reported present. *)
Theorem present_at_most_1 (t : tModuleType) (n : uint8_t) :
  getModulePresence t n = Some true -> n <= 1.
Proof.
  intros H.
  destruct (present_inv t n H) as [H0 | H01].
  - apply Z.eqb_eq in H0. lia.
  - apply andb_true_iff in H01. destruct H01 as [Hle _].
    now apply Z.leb_le.
Qed.

(** C10, as the code has it: the present module numbers of a type are
    closed downwards.  For every module type and every module number [n]
    from 0 to 254, so that [n + 1] is a module number too, if the call
    [getModulePresence(type, n + 1)] returns true, so does
    [getModulePresence(type, n)]; and among the module numbers the present
    ones are those below some bound [k], a range that starts at 0. *)
Theorem present_downward_closed (t : tModuleType) :
  (forall n : uint8_t,
      is_uint8 n ->
      n < UINT8_MAX ->
      getModulePresence_int t (n + 1) = Some true ->
      getModulePresence t n = Some true)
  /\ (exists k : Z,
        forall j : uint8_t,
          is_uint8 j -> (getModulePresence t j = Some true <-> j < k)).
Proof.
  unfold nLoadOut.getModulePresence_int, to_uint8, is_uint8, UINT8_MAX.
  unfold nLoadOut.getModulePresence, switch.
  split.
  - intros n [Hlo _] Hmax.
    rewrite Z.mod_small by lia.
    destruct (t =? kModuleType_Analog);
      [| destruct (t =? kModuleType_Digital);
         [| destruct (t =? kModuleType_Solenoid)]];
      intros [= H]; f_equal.
    + apply Z.eqb_eq in H. lia.
    + apply andb_true_iff in H. destruct H as [Hle _].
      apply Z.leb_le in Hle.
      apply andb_true_iff. split; [apply Z.leb_le | apply Z.geb_le]; lia.
    + apply Z.eqb_eq in H. lia.
  - destruct (t =? kModuleType_Analog);
      [exists 1 | destruct (t =? kModuleType_Digital);
         [exists 2 | destruct (t =? kModuleType_Solenoid);
            [exists 1 | exists 0]]];
      intros j Hj; split; intros H;
      try (injection H as H);
      try (f_equal);
      rewrite ?andb_true_iff, ?Z.leb_le, ?Z.geb_le, ?Z.eqb_eq in *;
      try lia; try discriminate.
Qed.

(** ** The table read by slot and by type *)

Local Abbreviation present_numbers :=
  (present_numbers
     kModuleType_Analog kModuleType_Digital kModuleType_Solenoid).


(** Module number 1 is present for the Digital type and for no other module
    type. *)
Theorem slot_1_present_iff_digital (t : tModuleType) :
  kModuleType_Digital <> kModuleType_Analog ->
  (getModulePresence t 1 = Some true <-> t = kModuleType_Digital).
Proof.
  intros HDA.
  destruct (Z.eq_dec t kModuleType_Digital) as [-> | HD].
  - rewrite (digital_case 1 HDA). now split.
  - split; [| contradiction].
    intros H. exfalso.
    destruct (Z.eq_dec t kModuleType_Analog) as [-> | HA].
    + rewrite analog_case in H. discriminate.
    + unfold nLoadOut.getModulePresence in H.
      rewrite !switch_skipped in H by assumption.
      simpl in H. destruct (t =? kModuleType_Solenoid); discriminate.
Qed.

(** The Digital type has every module number that any module type has, and
    the Analog and Solenoid types have the same module numbers. *)
Theorem tables_compared (t : tModuleType) (n : uint8_t) :
  kModuleType_Digital <> kModuleType_Analog ->
  kModuleType_Solenoid <> kModuleType_Analog ->
  kModuleType_Solenoid <> kModuleType_Digital ->
  (getModulePresence t n = Some true ->
   getModulePresence kModuleType_Digital n = Some true)
  /\ getModulePresence kModuleType_Analog n
     = getModulePresence kModuleType_Solenoid n.
Proof.
  intros HDA HSA HSD. split.
  - intros H. rewrite (digital_case n HDA). f_equal.
    destruct (present_inv t n H) as [H0 | H01]; [| exact H01].
    apply Z.eqb_eq in H0. now subst n.
  - now rewrite analog_case, (solenoid_case n HSA HSD).
Qed.

Lemma uint8_values_spec (n : Z) : In n uint8_values <-> is_uint8 n.
Proof.
  unfold uint8_values, is_uint8, UINT8_MAX.
  rewrite in_map_iff. split.
  - intros (k & <- & Hk). apply in_seq in Hk. lia.
  - intros Hn. exists (Z.to_nat n). split; [lia |].
    apply in_seq. lia.
Qed.

Lemma present_numbers_of_test (t : tModuleType) (test : uint8_t -> bool) :
  (forall n, getModulePresence t n = Some (test n)) ->
  present_numbers t = filter test uint8_values.
Proof.
  intros Htest. unfold nLoadOut.present_numbers.
  apply filter_ext. intros n. now rewrite Htest.
Qed.

(** A scan of all 256 module numbers finds one Analog slot (number 0), two
    Digital slots (numbers 0 and 1), one Solenoid slot (number 0) and no
    slot of any other module type. *)
Theorem scan_finds_four_slots (t : tModuleType) :
  kModuleType_Digital <> kModuleType_Analog ->
  kModuleType_Solenoid <> kModuleType_Analog ->
  kModuleType_Solenoid <> kModuleType_Digital ->
  present_numbers kModuleType_Analog = [0]
  /\ present_numbers kModuleType_Digital = [0; 1]
  /\ present_numbers kModuleType_Solenoid = [0]
  /\ (t <> kModuleType_Analog ->
      t <> kModuleType_Digital ->
      t <> kModuleType_Solenoid ->
      present_numbers t = []).
Proof.
  intros HDA HSA HSD. repeat split.
  - rewrite (present_numbers_of_test _ (fun n => n =? 0)) by apply analog_case.
    reflexivity.
  - rewrite (present_numbers_of_test _ (fun n => (n <=? 1) && (n >=? 0)))
      by (intros n; now apply digital_case).
    reflexivity.
  - rewrite (present_numbers_of_test _ (fun n => n =? 0))
      by (intros n; now apply solenoid_case).
    reflexivity.
  - intros HA HD HS.
    rewrite (present_numbers_of_test _ (fun _ => false))
      by (intros n; now apply default_case).
    reflexivity.
Qed.

(** ** Arguments wider than the parameter *)

Lemma to_uint8_range (z : Z) : is_uint8 (to_uint8 z).
Proof.
  unfold is_uint8, to_uint8, UINT8_MAX.
  pose proof (Z.mod_pos_bound z 256 eq_refl). lia.
Qed.

Lemma to_uint8_id (z : Z) : is_uint8 z -> to_uint8 z = z.
Proof.
  unfold is_uint8, to_uint8, UINT8_MAX. intros Hz.
  apply Z.mod_small. lia.
Qed.

Lemma to_uint8_period (z k : Z) : to_uint8 (z + 256 * k) = to_uint8 z.
Proof.
  unfold to_uint8. rewrite Z.mul_comm. now apply Z.mod_add.
Qed.

(** An integer argument reaches the body modulo 256.  An argument that is
    a [uint8_t] value is passed as it is; any other argument is answered as
    the [uint8_t] value congruent to it, so the answers repeat with period
    256.  The Analog type answers true for every multiple of 256, and an
    answer true bounds the argument modulo 256 only, not the argument. *)
Theorem int_argument_modulo_256 (t : tModuleType) (z : Z) :
  (is_uint8 z -> getModulePresence_int t z = getModulePresence t z)
  /\ (forall k : Z, getModulePresence_int t (z + 256 * k)
                   = getModulePresence_int t z)
  /\ (getModulePresence_int kModuleType_Analog z = Some true
      <-> exists k : Z, z = 256 * k)
  /\ (getModulePresence_int t z = Some true -> z mod 256 <= 1).
Proof.
  unfold nLoadOut.getModulePresence_int. repeat split.
  - intros Hz. now rewrite to_uint8_id.
  - intros k. now rewrite to_uint8_period.
  - rewrite analog_case. intros [= H]. apply Z.eqb_eq in H.
    unfold to_uint8 in H. exists (z / 256).
    pose proof (Z.div_mod z 256). lia.
  - intros [k ->]. rewrite analog_case.
    replace (256 * k) with (0 + 256 * k) by lia.
    now rewrite to_uint8_period.
  - intros H. unfold to_uint8 in H.
    destruct (present_inv t _ H) as [H0 | H01].
    + apply Z.eqb_eq in H0. lia.
    + apply andb_true_iff in H01. destruct H01 as [Hle _].
      now apply Z.leb_le.
Qed.

End Presence.

(** ** The function at work under the numbering [Numbering] *)

Section Runs.

Import Numbering.

Local Abbreviation presence := (getModulePresence Analog Digital Solenoid).

Example unknown_type_absent : presence Unknown 0 = Some false.
Proof. reflexivity. Qed.

Example cast_value_absent : presence 200 1 = Some false.
Proof. reflexivity. Qed.

Example largest_number_absent : presence Digital UINT8_MAX = Some false.
Proof. reflexivity. Qed.

(** Without its [default] the same [switch] would leave the function with
    nothing returned for a module type that no case names. *)
Example no_default_no_result :
  switch Unknown [(Analog, true); (Digital, true); (Solenoid, true)] None
  = None.
Proof. reflexivity. Qed.

(** A case body that writes the state is seen to: the state after the
    [switch] differs from the state before it. *)
Example a_writing_case_is_seen :
  switch_stmt (World := Z) Analog
    [(Analog, fun w => (Some true, w + 1))] (Some (return_ false)) 0
  = (Some true, 1).
Proof. reflexivity. Qed.

Example a_session_in_a_state :
  run_session Analog Digital Solenoid Z
    [(Digital, 1); (Analog, 1); (Digital, 1); (Unknown, 0)] 7
  = ([Some true; Some false; Some true; Some false], 7).
Proof. reflexivity. Qed.

Example a_session :
  session_results Analog Digital Solenoid
    [(Digital, 1); (Analog, 1); (Digital, 1); (Unknown, 0)]
  = [Some true; Some false; Some true; Some false].
Proof. reflexivity. Qed.

Lemma digital_present_iff_zero_or_one_witness :
  presence Digital 1 = Some ((1 =? 0) || (1 =? 1))
  /\ (presence Digital 1 = Some true <-> 1 = 0 \/ 1 = 1).
Proof.
  apply (digital_present_iff_zero_or_one Analog Digital Solenoid 1).
  unfold Analog, Digital. lia.
Defined.

Lemma solenoid_present_iff_zero_witness :
  presence Solenoid 0 = Some (0 =? 0)
  /\ (presence Solenoid 0 = Some true <-> 0 = 0).
Proof.
  apply (solenoid_present_iff_zero Analog Digital Solenoid 0);
    unfold Analog, Digital, Solenoid; lia.
Defined.

Lemma other_type_never_present_witness : presence Unknown 0 = Some false.
Proof.
  apply (other_type_never_present Analog Digital Solenoid Unknown 0);
    unfold Unknown, Analog, Digital, Solenoid; lia.
Defined.


Lemma scenarios_witness :
  presence Analog 0 = Some true
  /\ presence Analog 1 = Some false
  /\ presence Digital 1 = Some true
  /\ presence Digital 2 = Some false
  /\ presence Solenoid 0 = Some true.
Proof.
  apply (scenarios Analog Digital Solenoid);
    unfold Analog, Digital, Solenoid; lia.
Defined.

Lemma digital_lower_bound_redundant_witness :
  is_uint8 UINT8_MAX
  /\ digital_range_test UINT8_MAX = digital_upper_bound_test UINT8_MAX
  /\ presence Digital UINT8_MAX = Some (digital_range_test UINT8_MAX)
  /\ presence Digital UINT8_MAX = Some (digital_upper_bound_test UINT8_MAX).
Proof.
  assert (H : is_uint8 UINT8_MAX) by (unfold is_uint8, UINT8_MAX; lia).
  split; [exact H |].
  apply (digital_lower_bound_redundant Analog Digital Solenoid UINT8_MAX H).
  unfold Analog, Digital. lia.
Defined.

Lemma present_at_most_1_witness :
  presence Digital 1 = Some true /\ 1 <= 1.
Proof.
  split; [reflexivity |].
  apply (present_at_most_1 Analog Digital Solenoid Digital 1). reflexivity.
Defined.

Lemma present_downward_closed_witness :
  is_uint8 0
  /\ 0 < UINT8_MAX
  /\ getModulePresence_int Analog Digital Solenoid Digital (0 + 1) = Some true
  /\ presence Digital 0 = Some true.
Proof.
  assert (H : is_uint8 0) by (unfold is_uint8, UINT8_MAX; lia).
  split; [exact H | split; [reflexivity | split; [reflexivity |]]].
  apply (proj1 (present_downward_closed Analog Digital Solenoid Digital) 0 H);
    reflexivity.
Defined.

(** C10 as it is stated fails at the largest module number: the call
    [getModulePresence(Analog, 255 + 1)] receives 0 and returns true, and
    [getModulePresence(Analog, 255)] returns false. *)
Lemma successor_of_255_not_closed :
  is_uint8 255
  /\ getModulePresence_int Analog Digital Solenoid Analog (255 + 1) = Some true
  /\ presence Analog 255 = Some false.
Proof.
  repeat split; unfold UINT8_MAX; lia.
Qed.

Example argument_256_answered_as_0 :
  getModulePresence_int Analog Digital Solenoid Analog 256 = Some true.
Proof. reflexivity. Qed.

Example negative_argument_answered_as_255 :
  getModulePresence_int Analog Digital Solenoid Digital (-1) = Some false.
Proof. reflexivity. Qed.

Lemma slot_1_present_iff_digital_witness :
  presence Digital 1 = Some true <-> Digital = Digital.
Proof.
  apply (slot_1_present_iff_digital Analog Digital Solenoid Digital).
  unfold Analog, Digital. lia.
Defined.

Lemma tables_compared_witness :
  (presence Analog 0 = Some true -> presence Digital 0 = Some true)
  /\ presence Analog 0 = presence Solenoid 0.
Proof.
  apply (tables_compared Analog Digital Solenoid Analog 0);
    unfold Analog, Digital, Solenoid; lia.
Defined.

Lemma scan_finds_four_slots_witness :
  present_numbers Analog Digital Solenoid Analog = [0]
  /\ present_numbers Analog Digital Solenoid Digital = [0; 1]
  /\ present_numbers Analog Digital Solenoid Solenoid = [0]
  /\ present_numbers Analog Digital Solenoid Unknown = [].
Proof.
  destruct (scan_finds_four_slots Analog Digital Solenoid Unknown)
    as (HA & HD & HS & HU); try (unfold Analog, Digital, Solenoid; lia).
  split; [exact HA | split; [exact HD | split; [exact HS |]]].
  apply HU; unfold Unknown, Analog, Digital, Solenoid; lia.
Defined.

Lemma int_argument_modulo_256_witness :
  is_uint8 1
  /\ getModulePresence_int Analog Digital Solenoid Digital 1
     = presence Digital 1
  /\ 257 mod 256 <= 1.
Proof.
  assert (H : is_uint8 1) by (unfold is_uint8, UINT8_MAX; lia).
  split; [exact H | split].
  - destruct (int_argument_modulo_256 Analog Digital Solenoid Digital 1)
      as (Hid & _). exact (Hid H).
  - destruct (int_argument_modulo_256 Analog Digital Solenoid Digital 257)
      as (_ & _ & _ & Hbound). apply Hbound. reflexivity.
Defined.

End Runs.

End nLoadOut.
